(** * Session reliability layer of the MTProto client (mtproto/session.h)

    A shallow embedding of [ReceivedMsgIds], [ResponseNeedsAck] and
    [SessionData], followed by the properties of these operations. The
    member functions of [Session] are only declared in this header and are
    not embedded.

    Conventions of the embedding:
    - [uint64] and [uint32] values are integers of [Z]; wherever the source
      computes with them the reduction modulo [2^w] is written out;
    - a [QMap<K, V>] with integer keys is its sequence of entries in
      iteration order, that is by strictly increasing key: [begin()] is the
      head of the list and [end()] lies behind its last entry;
    - a member function that mutates [*this] takes the object and returns
      the new one, next to its C++ result when it has one;
    - the [QReadWriteLock]s are not represented: every member function is
      modelled as one atomic step, which is what its locker provides. *)

From Stdlib Require Import ZArith List Bool Lia.
Import ListNotations.
Local Open Scope Z_scope.

Set Implicit Arguments.

(** ** Machine integers *)

Definition uint32_modulus : Z := 2 ^ 32.

(** Conversion to [uint32]: the value modulo [2^32]. *)
Definition to_uint32 (z : Z) : Z := z mod uint32_modulus.

(** Conversion of an integer to [bool], as in the condition of [?:]. *)
Definition nonzero (z : Z) : bool := negb (z =? 0).

(** ** QMap with integer keys *)

Module QMap.

Section Entries.

Variable V : Type.

Definition t : Type := list (Z * V).

Definition keys (m : t) : list Z := map fst m.

(** Keys strictly increase along the iteration order. *)
Fixpoint increasing (l : list Z) : bool :=
  match l with
  | [] => true
  | x :: r =>
      match r with
      | [] => true
      | y :: _ => (x <? y) && increasing r
      end
  end.

Definition wf (m : t) : Prop := increasing (keys m) = true.

(** [size()], an [int]. *)
Definition size (m : t) : Z := Z.of_nat (length m).

Definition isEmpty (m : t) : bool :=
  match m with
  | [] => true
  | _ :: _ => false
  end.

(** [constFind(key)]: [None] stands for the iterator [cend()], [Some v]
    for an iterator to the entry of [key], whose [value()] is [v]. *)
Fixpoint constFind (key : Z) (m : t) : option V :=
  match m with
  | [] => None
  | (k, v) :: r => if key =? k then Some v else constFind key r
  end.

(** [insert(key, value)]: a new entry at its place in key order, or the
    value of the entry of [key] replaced. *)
Fixpoint insert (key : Z) (value : V) (m : t) : t :=
  match m with
  | [] => [(key, value)]
  | (k, v) :: r =>
      if key <? k then (key, value) :: m
      else if key =? k then (key, value) :: r
      else (k, v) :: insert key value r
  end.

(** [erase(key)]. *)
Fixpoint erase (key : Z) (m : t) : t :=
  match m with
  | [] => []
  | (k, v) :: r => if key =? k then r else (k, v) :: erase key r
  end.

(** [erase(begin())]. On an empty map the source has no defined
    behaviour; the model leaves the map empty. *)
Definition erase_begin (m : t) : t := tl m.

(** [cbegin().key()] and [(--cend()).key()] of a map that is not empty. *)
Definition first_key (m : t) : option Z := option_map fst (hd_error m).

Definition last_key (m : t) : option Z := option_map fst (hd_error (rev m)).

Definition clear (m : t) : t := [].

End Entries.

Arguments keys {V} m.
Arguments wf {V} m.
Arguments size {V} m.
Arguments isEmpty {V} m.
Arguments constFind {V} key m.
Arguments insert {V} key value m.
Arguments erase {V} key m.
Arguments erase_begin {V} m.
Arguments first_key {V} m.
Arguments last_key {V} m.
Arguments clear {V} m.

End QMap.

(** ** ReceivedMsgIds *)

Module ReceivedMsgIds.

Record t : Type := Build { _idsNeedAck : QMap.t bool }.

Inductive State : Type :=
| NotFound
| NeedsAck
| NoAckNeeded.

Definition min (w : t) : Z :=
  if QMap.isEmpty (_idsNeedAck w) then 0
  else match QMap.first_key (_idsNeedAck w) with
       | Some k => k
       | None => 0
       end.

Definition max (w : t) : Z :=
  if QMap.isEmpty (_idsNeedAck w) then 0
  else match QMap.last_key (_idsNeedAck w) with
       | Some k => k
       | None => 0
       end.

Definition lookup (msgId : Z) (w : t) : State :=
  match QMap.constFind msgId (_idsNeedAck w) with
  | None => NotFound
  | Some value => if value then NeedsAck else NoAckNeeded
  end.

Definition clear (w : t) : t := Build (QMap.clear (_idsNeedAck w)).

Section Capacity.

(** The constant [MTPIdsBufferSize] is declared outside this header. *)
Variable MTPIdsBufferSize : Z.

Definition registerMsgId (msgId : Z) (needAck : bool) (w : t) : bool * t :=
  match QMap.constFind msgId (_idsNeedAck w) with
  | None =>
      if (QMap.size (_idsNeedAck w) <? MTPIdsBufferSize) || (msgId >? min w)
      then (true, Build (QMap.insert msgId needAck (_idsNeedAck w)))
      else (false, w)
  | Some _ => (false, w)
  end.

(** The loop [while (size-- > MTPIdsBufferSize) erase(begin())] on the
    local [size], by recursion on the entries: a turn of the loop erases
    the first entry and goes on with the rest [r]. With no entry left the
    model stops (the source would erase [begin()] of an empty map, which
    takes a negative [MTPIdsBufferSize]). *)
Fixpoint shrink_loop (size : Z) (m : QMap.t bool) : QMap.t bool :=
  match m with
  | [] => []
  | _ :: r =>
      if size >? MTPIdsBufferSize then shrink_loop (size - 1) r else m
  end.

Definition shrink (w : t) : t :=
  let size := QMap.size (_idsNeedAck w) in
  Build (shrink_loop size (_idsNeedAck w)).

End Capacity.

End ReceivedMsgIds.

(** ** ResponseNeedsAck *)

(** [SerializedMessage] is [mtpBuffer], a [QVector<mtpPrime>] of [int32]
    elements. *)
Definition SerializedMessage : Type := list Z.

(** [*(uint32* )(constData() + index)]: the element at [index] taken as
    [uint32]; [None] when [index] lies outside the buffer. *)
Definition read_uint32 (index : nat) (buffer : SerializedMessage) : option Z :=
  option_map to_uint32 (nth_error buffer index).

(** What a call did: the indices of the elements it read, and its result
    ([None] once a read fell outside the buffer). *)
Record Run (A : Type) : Type := MkRun { reads : list nat; result : option A }.

Definition ResponseNeedsAck (response : SerializedMessage) : Run bool :=
  if Z.of_nat (length response) <? 8 then
    MkRun [] (Some false)
  else
    MkRun [6%nat]
      (match read_uint32 6 response with
       | Some seqNo => Some (if nonzero (Z.land seqNo 1) then true else false)
       | None => None
       end).

(** ** Types declared outside this header *)

(** [AuthKeyPtr] is a shared pointer, compared by address; [0] is the null
    pointer. *)
Definition AuthKeyPtr : Type := Z.

(** Modelled from the spec: the request type [mtpRequest], declared outside
    this header. A request has a request id that is stable for its lifetime,
    its serialized payload, whether response/fail callbacks were given, the
    time it was handed to the transport ([0] before that), a maximum wait, the
    request it must follow ([0] for none) and its two flags. *)
Record mtpRequest : Type := MkRequest {
  requestId : Z;
  payload : SerializedMessage;
  hasCallbacks : bool;
  msDate : Z;
  msCanWait : Z;
  after : Z;
  needsLayer : bool;
  toMainDC : bool
}.

(** Modelled from the spec: the queue types, declared outside this header;
    request id -> request, message id -> request, message id -> request id,
    and a set of message ids kept as the keys of a map. *)
Definition mtpPreRequestMap : Type := QMap.t mtpRequest.
Definition mtpRequestMap : Type := QMap.t mtpRequest.
Definition mtpRequestIdsMap : Type := QMap.t Z.
Definition mtpMsgIdsSet : Type := QMap.t bool.

(** ** SessionData *)

Module SessionData.

(** The data members, without the back pointer [_owner] and the locks. *)
Record t : Type := Build {
  _session : Z;
  _salt : Z;
  _messagesSent : Z;
  _authKey : AuthKeyPtr;
  _keyChecked : bool;
  _layerInited : bool;
  _toSend : mtpPreRequestMap;
  _haveSent : mtpRequestMap;
  _toResend : mtpRequestIdsMap;
  _receivedIds : ReceivedMsgIds.t;
  _wereAcked : mtpRequestIdsMap;
  _stateRequest : mtpMsgIdsSet;
  _receivedResponses : QMap.t SerializedMessage;
  _receivedUpdates : list SerializedMessage
}.

(** The default member initializers. *)
Definition init : t :=
  Build 0 0 0 0 false false [] [] [] (ReceivedMsgIds.Build []) [] [] [] [].

(** Assignment to one data member. *)
Definition set_session (v : Z) (d : t) : t :=
  Build v (_salt d) (_messagesSent d) (_authKey d) (_keyChecked d) (_layerInited d) (_toSend d) (_haveSent d) (_toResend d) (_receivedIds d) (_wereAcked d) (_stateRequest d) (_receivedResponses d) (_receivedUpdates d).

Definition set_salt (v : Z) (d : t) : t :=
  Build (_session d) v (_messagesSent d) (_authKey d) (_keyChecked d) (_layerInited d) (_toSend d) (_haveSent d) (_toResend d) (_receivedIds d) (_wereAcked d) (_stateRequest d) (_receivedResponses d) (_receivedUpdates d).

Definition set_messagesSent (v : Z) (d : t) : t :=
  Build (_session d) (_salt d) v (_authKey d) (_keyChecked d) (_layerInited d) (_toSend d) (_haveSent d) (_toResend d) (_receivedIds d) (_wereAcked d) (_stateRequest d) (_receivedResponses d) (_receivedUpdates d).

Definition set_authKey (v : AuthKeyPtr) (d : t) : t :=
  Build (_session d) (_salt d) (_messagesSent d) v (_keyChecked d) (_layerInited d) (_toSend d) (_haveSent d) (_toResend d) (_receivedIds d) (_wereAcked d) (_stateRequest d) (_receivedResponses d) (_receivedUpdates d).

Definition set_keyChecked (v : bool) (d : t) : t :=
  Build (_session d) (_salt d) (_messagesSent d) (_authKey d) v (_layerInited d) (_toSend d) (_haveSent d) (_toResend d) (_receivedIds d) (_wereAcked d) (_stateRequest d) (_receivedResponses d) (_receivedUpdates d).

Definition set_layerInited (v : bool) (d : t) : t :=
  Build (_session d) (_salt d) (_messagesSent d) (_authKey d) (_keyChecked d) v (_toSend d) (_haveSent d) (_toResend d) (_receivedIds d) (_wereAcked d) (_stateRequest d) (_receivedResponses d) (_receivedUpdates d).

Definition set_toSend (v : mtpPreRequestMap) (d : t) : t :=
  Build (_session d) (_salt d) (_messagesSent d) (_authKey d) (_keyChecked d) (_layerInited d) v (_haveSent d) (_toResend d) (_receivedIds d) (_wereAcked d) (_stateRequest d) (_receivedResponses d) (_receivedUpdates d).

Definition set_haveSent (v : mtpRequestMap) (d : t) : t :=
  Build (_session d) (_salt d) (_messagesSent d) (_authKey d) (_keyChecked d) (_layerInited d) (_toSend d) v (_toResend d) (_receivedIds d) (_wereAcked d) (_stateRequest d) (_receivedResponses d) (_receivedUpdates d).

Definition set_toResend (v : mtpRequestIdsMap) (d : t) : t :=
  Build (_session d) (_salt d) (_messagesSent d) (_authKey d) (_keyChecked d) (_layerInited d) (_toSend d) (_haveSent d) v (_receivedIds d) (_wereAcked d) (_stateRequest d) (_receivedResponses d) (_receivedUpdates d).

Definition set_receivedIds (v : ReceivedMsgIds.t) (d : t) : t :=
  Build (_session d) (_salt d) (_messagesSent d) (_authKey d) (_keyChecked d) (_layerInited d) (_toSend d) (_haveSent d) (_toResend d) v (_wereAcked d) (_stateRequest d) (_receivedResponses d) (_receivedUpdates d).

Definition set_wereAcked (v : mtpRequestIdsMap) (d : t) : t :=
  Build (_session d) (_salt d) (_messagesSent d) (_authKey d) (_keyChecked d) (_layerInited d) (_toSend d) (_haveSent d) (_toResend d) (_receivedIds d) v (_stateRequest d) (_receivedResponses d) (_receivedUpdates d).

Definition set_stateRequest (v : mtpMsgIdsSet) (d : t) : t :=
  Build (_session d) (_salt d) (_messagesSent d) (_authKey d) (_keyChecked d) (_layerInited d) (_toSend d) (_haveSent d) (_toResend d) (_receivedIds d) (_wereAcked d) v (_receivedResponses d) (_receivedUpdates d).

Definition set_receivedResponses (v : QMap.t SerializedMessage) (d : t) : t :=
  Build (_session d) (_salt d) (_messagesSent d) (_authKey d) (_keyChecked d) (_layerInited d) (_toSend d) (_haveSent d) (_toResend d) (_receivedIds d) (_wereAcked d) (_stateRequest d) v (_receivedUpdates d).

Definition set_receivedUpdates (v : list SerializedMessage) (d : t) : t :=
  Build (_session d) (_salt d) (_messagesSent d) (_authKey d) (_keyChecked d) (_layerInited d) (_toSend d) (_haveSent d) (_toResend d) (_receivedIds d) (_wereAcked d) (_stateRequest d) (_receivedResponses d) v.

Definition setSession (session : Z) (d : t) : t :=
  if negb (_session d =? session) then
    set_messagesSent 0 (set_session session d)
  else d.

Definition getSession (d : t) : Z := _session d.

Definition layerWasInited (d : t) : bool := _layerInited d.

Definition setLayerWasInited (was : bool) (d : t) : t := set_layerInited was d.

Definition setSalt (salt : Z) (d : t) : t := set_salt salt d.

Definition getSalt (d : t) : Z := _salt d.

Definition getKey (d : t) : AuthKeyPtr := _authKey d.

(** [setKey]; [session] is the value that [rand_value<uint64>()] returns
    when the function draws it. *)
Definition setKey (session : Z) (key : AuthKeyPtr) (d : t) : t :=
  if negb (_authKey d =? key) then
    let d1 := set_authKey key d in
    let d2 :=
      if negb (_session d1 =? session) then
        set_messagesSent 0 (set_session session d1)
      else d1 in
    set_layerInited false d2
  else d.

Definition isCheckedKey (d : t) : bool := _keyChecked d.

Definition setCheckedKey (checked : bool) (d : t) : t := set_keyChecked checked d.

(** [nextRequestSeqNumber]; the arithmetic is that of [uint32]. *)
Definition nextRequestSeqNumber (needAck : bool) (d : t) : Z * t :=
  let result := _messagesSent d in
  let d1 :=
    set_messagesSent (to_uint32 (_messagesSent d + (if needAck then 1 else 0))) d in
  (to_uint32 (result * 2 + (if needAck then 1 else 0)), d1).

(** [count] calls of [nextRequestSeqNumber(needAck)] one after the other:
    the numbers returned, in the order of the calls, and the final state. *)
Fixpoint nextRequestSeqNumbers (needAck : bool) (count : nat) (d : t)
  : list Z * t :=
  match count with
  | O => ([], d)
  | S n =>
      let (seqNo, d1) := nextRequestSeqNumber needAck d in
      let (rest, d2) := nextRequestSeqNumbers needAck n d1 in
      (seqNo :: rest, d2)
  end.

End SessionData.

(** * Properties *)

(** ** QMap *)

Section QMapFacts.

Variable V : Type.

Implicit Types (m : QMap.t V) (k key : Z) (v value : V).

Lemma increasing_cons (x : Z) (l : list Z) :
  QMap.increasing (x :: l) = true <->
  (forall y, In y l -> x < y) /\ QMap.increasing l = true.
Proof.
  revert x. induction l as [|y l IH]; intro x.
  - simpl. split; [intros _; split; [intros ? []|reflexivity]|reflexivity].
  - change (QMap.increasing (x :: y :: l))
      with ((x <? y) && QMap.increasing (y :: l)).
    rewrite andb_true_iff, Z.ltb_lt. split.
    + intros [Hxy Hl]. split; [|exact Hl].
      intros z [<-|Hz]; [exact Hxy|].
      apply IH in Hl. destruct Hl as [Hl _]. specialize (Hl z Hz). lia.
    + intros [Hall Hl]. split; [apply Hall; left; reflexivity|exact Hl].
Qed.

Lemma wf_cons k v m :
  QMap.wf ((k, v) :: m) <->
  (forall k', In k' (QMap.keys m) -> k < k') /\ QMap.wf m.
Proof. unfold QMap.wf. simpl. apply increasing_cons. Qed.

Lemma wf_nil : QMap.wf (@nil (Z * V)).
Proof. reflexivity. Qed.

Lemma constFind_None key m :
  QMap.constFind key m = None <-> ~ In key (QMap.keys m).
Proof.
  induction m as [|[k v] m IH]; simpl.
  - tauto.
  - destruct (Z.eqb_spec key k) as [->|Hne].
    + split; [discriminate|]. intros H. exfalso. apply H. now left.
    + rewrite IH. split; [intros H [E|I]; [congruence|tauto]|tauto].
Qed.

Lemma constFind_insert_same key value m :
  QMap.constFind key (QMap.insert key value m) = Some value.
Proof.
  induction m as [|[k v] m IH]; simpl.
  - now rewrite Z.eqb_refl.
  - destruct (Z.ltb_spec key k) as [Hlt|Hge]; simpl.
    + now rewrite Z.eqb_refl.
    + destruct (Z.eqb_spec key k) as [->|Hne]; simpl.
      * now rewrite Z.eqb_refl.
      * destruct (Z.eqb_spec key k); [contradiction|exact IH].
Qed.

Lemma constFind_insert_other key value m k :
  k <> key ->
  QMap.constFind k (QMap.insert key value m) = QMap.constFind k m.
Proof.
  intro Hk. induction m as [|[k0 v0] m IH]; simpl.
  - destruct (Z.eqb_spec k key); [contradiction|reflexivity].
  - destruct (Z.ltb_spec key k0) as [Hlt|Hge]; simpl.
    + destruct (Z.eqb_spec k key); [contradiction|reflexivity].
    + destruct (Z.eqb_spec key k0) as [->|Hne]; simpl.
      * destruct (Z.eqb_spec k k0); [contradiction|reflexivity].
      * destruct (Z.eqb_spec k k0); [reflexivity|exact IH].
Qed.

Lemma keys_insert key value m k :
  In k (QMap.keys (QMap.insert key value m)) <-> k = key \/ In k (QMap.keys m).
Proof.
  induction m as [|[k0 v0] m IH]; simpl.
  - intuition.
  - destruct (Z.ltb_spec key k0) as [Hlt|Hge]; simpl.
    + intuition.
    + destruct (Z.eqb_spec key k0) as [->|Hne]; simpl.
      * intuition.
      * rewrite IH. intuition.
Qed.

Lemma wf_insert key value m :
  QMap.wf m -> QMap.wf (QMap.insert key value m).
Proof.
  induction m as [|[k0 v0] m IH]; simpl; intro Hwf.
  - reflexivity.
  - destruct (Z.ltb_spec key k0) as [Hlt|Hge].
    + apply wf_cons. split; [|exact Hwf].
      apply wf_cons in Hwf. destruct Hwf as [Hall _].
      simpl. intros k' [<-|Hin]; [exact Hlt|]. specialize (Hall k' Hin). lia.
    + apply wf_cons in Hwf. destruct Hwf as [Hall Hwf].
      destruct (Z.eqb_spec key k0) as [->|Hne].
      * apply wf_cons. split; assumption.
      * apply wf_cons. split; [|apply IH; exact Hwf].
        intros k' Hin. apply keys_insert in Hin.
        destruct Hin as [->|Hin]; [lia|apply Hall; exact Hin].
Qed.

Lemma size_insert_new key value m :
  QMap.constFind key m = None ->
  QMap.size (QMap.insert key value m) = QMap.size m + 1.
Proof.
  unfold QMap.size. induction m as [|[k0 v0] m IH]; simpl; intro Hnone.
  - reflexivity.
  - destruct (Z.eqb_spec key k0) as [->|Hne]; [discriminate|].
    destruct (Z.ltb_spec key k0) as [Hlt|Hge]; simpl length.
    + lia.
    + specialize (IH Hnone). lia.
Qed.

(** In a well-formed map the first key is the least key. *)
Lemma first_key_least k v m :
  QMap.wf ((k, v) :: m) ->
  QMap.first_key ((k, v) :: m) = Some k /\
  forall k', In k' (QMap.keys ((k, v) :: m)) -> k <= k'.
Proof.
  intro Hwf. split; [reflexivity|].
  apply wf_cons in Hwf. destruct Hwf as [Hall _].
  simpl. intros k' [<-|Hin]; [lia|]. specialize (Hall k' Hin). lia.
Qed.

End QMapFacts.

Section QMapOrder.

Variable V : Type.

Implicit Types (m front back : QMap.t V).

(** A well-formed map cut in two: both parts are well formed and every key
    of the front is below every key of the back. *)
Lemma wf_app front back :
  QMap.wf (front ++ back) ->
  QMap.wf front /\ QMap.wf back /\
  forall a b, In a (QMap.keys front) -> In b (QMap.keys back) -> a < b.
Proof.
  induction front as [|[k v] front IH]; simpl; intro Hwf.
  - split; [reflexivity|]. split; [exact Hwf|]. intros a b [].
  - apply wf_cons in Hwf. destruct Hwf as [Hall Hwf].
    destruct (IH Hwf) as (Hf & Hb & Hlt).
    split; [|split; [exact Hb|]].
    + apply wf_cons. split; [|exact Hf].
      intros k' Hin. apply Hall. unfold QMap.keys in *.
      rewrite map_app. apply in_or_app. now left.
    + intros a b [<-|Ha] Hb'.
      * apply Hall. unfold QMap.keys in *.
        rewrite map_app. apply in_or_app. now right.
      * now apply Hlt.
Qed.

End QMapOrder.

(** ** ReceivedMsgIds *)

Section ReceivedMsgIdsFacts.

Import ReceivedMsgIds.

Variable MTPIdsBufferSize : Z.

Implicit Types (w : ReceivedMsgIds.t) (msgId : Z) (needAck : bool).

Lemma lookup_NotFound msgId w :
  lookup msgId w = NotFound <-> ~ In msgId (QMap.keys (_idsNeedAck w)).
Proof.
  unfold lookup. rewrite <- constFind_None.
  destruct (QMap.constFind msgId (_idsNeedAck w)) as [[|]|];
    split; congruence.
Qed.

(** [min()] of a well-formed window that is not empty is its least id. *)
Lemma min_least w :
  QMap.wf (_idsNeedAck w) -> _idsNeedAck w <> [] ->
  In (min w) (QMap.keys (_idsNeedAck w)) /\
  forall k, In k (QMap.keys (_idsNeedAck w)) -> min w <= k.
Proof.
  destruct w as [[|[k v] m]]; simpl; intros Hwf Hne; [congruence|].
  unfold min; simpl. split; [now left|].
  apply (first_key_least Hwf).
Qed.

(** The result of [registerMsgId], by cases. *)
Lemma registerMsgId_cases msgId needAck w :
  (~ In msgId (QMap.keys (_idsNeedAck w)) /\
   (QMap.size (_idsNeedAck w) < MTPIdsBufferSize \/ msgId > min w) /\
   registerMsgId MTPIdsBufferSize msgId needAck w =
     (true, Build (QMap.insert msgId needAck (_idsNeedAck w))))
  \/
  (~ (~ In msgId (QMap.keys (_idsNeedAck w)) /\
      (QMap.size (_idsNeedAck w) < MTPIdsBufferSize \/ msgId > min w)) /\
   registerMsgId MTPIdsBufferSize msgId needAck w = (false, w)).
Proof.
  unfold registerMsgId.
  destruct (QMap.constFind msgId (_idsNeedAck w)) as [b|] eqn:Hfind.
  - right. split; [|reflexivity].
    intros [Hnot _]. apply constFind_None in Hnot. congruence.
  - apply constFind_None in Hfind.
    destruct (Z.ltb_spec (QMap.size (_idsNeedAck w)) MTPIdsBufferSize)
      as [Hlt|Hge]; simpl.
    + left. auto.
    + destruct (Z.gtb_spec msgId (min w)) as [Hgt|Hle].
      * left. split; [exact Hfind|]. split; [right; lia|reflexivity].
      * right. split; [|reflexivity]. intros [_ [H|H]]; lia.
Qed.

(** C1. [registerMsgId(msgId, needAck)] returns [true] exactly when [msgId]
    is not in the window and the window holds fewer than [MTPIdsBufferSize]
    ids or [msgId] is greater than [min()]. It then inserts [msgId] with
    [needAck]: the id is found with that flag, every other id keeps its
    entry and the size grows by one. When it returns [false] the window is
    the one it was given. *)
Theorem registerMsgId_inserts_iff_new_and_admitted msgId needAck w :
  let r := registerMsgId MTPIdsBufferSize msgId needAck w in
  (fst r = true <->
     ~ In msgId (QMap.keys (_idsNeedAck w)) /\
     (QMap.size (_idsNeedAck w) < MTPIdsBufferSize \/ msgId > min w)) /\
  (fst r = true ->
     snd r = Build (QMap.insert msgId needAck (_idsNeedAck w)) /\
     QMap.constFind msgId (_idsNeedAck (snd r)) = Some needAck /\
     (forall k, k <> msgId ->
        QMap.constFind k (_idsNeedAck (snd r)) =
        QMap.constFind k (_idsNeedAck w)) /\
     QMap.size (_idsNeedAck (snd r)) = QMap.size (_idsNeedAck w) + 1) /\
  (fst r = false -> snd r = w).
Proof.
  cbv zeta.
  destruct (registerMsgId_cases msgId needAck w) as [(Hnew & Hadm & ->)|(Hno & ->)];
    simpl.
  - split; [tauto|]. split; [|discriminate]. intros _.
    split; [reflexivity|]. split; [apply constFind_insert_same|].
    split; [intros k Hk; now apply constFind_insert_other|].
    apply size_insert_new. now apply constFind_None.
  - split; [split; [discriminate|tauto]|]. split; [discriminate|reflexivity].
Qed.

(** Registration keeps the window well formed. *)
Lemma registerMsgId_wf msgId needAck w :
  QMap.wf (_idsNeedAck w) ->
  QMap.wf (_idsNeedAck (snd (registerMsgId MTPIdsBufferSize msgId needAck w))).
Proof.
  intro Hwf.
  destruct (registerMsgId_cases msgId needAck w) as [(_ & _ & ->)|(_ & ->)];
    simpl; [now apply wf_insert|exact Hwf].
Qed.


Lemma shrink_loop_skipn (m : QMap.t bool) :
  0 <= MTPIdsBufferSize ->
  shrink_loop MTPIdsBufferSize (QMap.size m) m =
  skipn (Z.to_nat (QMap.size m - MTPIdsBufferSize)) m.
Proof.
  intro Hcap. unfold QMap.size.
  induction m as [|e m IH].
  - now rewrite skipn_nil.
  - cbn [shrink_loop].
    destruct (Z.gtb_spec (Z.of_nat (length (e :: m))) MTPIdsBufferSize)
      as [Hgt|Hle].
    + replace (Z.of_nat (length (e :: m)) - 1) with (Z.of_nat (length m))
        by (simpl length; lia).
      rewrite IH.
      replace (Z.to_nat (Z.of_nat (length (e :: m)) - MTPIdsBufferSize))
        with (S (Z.to_nat (Z.of_nat (length m) - MTPIdsBufferSize)))
        by (simpl length in *; lia).
      reflexivity.
    + replace (Z.to_nat (Z.of_nat (length (e :: m)) - MTPIdsBufferSize))
        with O by lia.
      reflexivity.
Qed.

(** A turn of the loop of [shrink] on a window that is not empty. *)
Lemma shrink_loop_turn size (m : QMap.t bool) :
  m <> [] ->
  shrink_loop MTPIdsBufferSize size m =
  if size >? MTPIdsBufferSize
  then shrink_loop MTPIdsBufferSize (size - 1) (QMap.erase_begin m)
  else m.
Proof. destruct m; [congruence|reflexivity]. Qed.

(** C4. After [shrink()] the window holds at most [MTPIdsBufferSize] ids:
    the ids evicted come first in key order, each of them is below every id
    kept, the entries kept are unchanged, exactly [MTPIdsBufferSize] are
    kept when there were at least that many, and a window within the
    capacity is returned as it was. *)
Theorem shrink_keeps_largest w :
  0 <= MTPIdsBufferSize ->
  QMap.wf (_idsNeedAck w) ->
  let w' := shrink MTPIdsBufferSize w in
  QMap.size (_idsNeedAck w') <= MTPIdsBufferSize /\
  QMap.size (_idsNeedAck w') =
    Z.min (QMap.size (_idsNeedAck w)) MTPIdsBufferSize /\
  (exists evicted,
     _idsNeedAck w = evicted ++ _idsNeedAck w' /\
     forall a b,
       In a (QMap.keys evicted) -> In b (QMap.keys (_idsNeedAck w')) -> a < b) /\
  QMap.wf (_idsNeedAck w') /\
  (QMap.size (_idsNeedAck w) <= MTPIdsBufferSize -> w' = w).
Proof.
  intros Hcap Hwf. cbv zeta. unfold shrink. destruct w as [m]. simpl in *.
  rewrite (shrink_loop_skipn m Hcap).
  set (n := Z.to_nat (QMap.size m - MTPIdsBufferSize)).
  assert (Hlen : QMap.size (skipn n m) = Z.min (QMap.size m) MTPIdsBufferSize).
  { unfold QMap.size in *. rewrite length_skipn. subst n. lia. }
  assert (Hsplit : m = firstn n m ++ skipn n m)
    by (symmetry; apply firstn_skipn).
  rewrite Hsplit in Hwf. destruct (wf_app _ _ Hwf) as (_ & Hback & Hlt).
  split; [lia|]. split; [exact Hlen|].
  split; [exists (firstn n m); split; [exact Hsplit|exact Hlt]|].
  split; [exact Hback|].
  intro Hsmall. subst n.
  replace (Z.to_nat (QMap.size m - MTPIdsBufferSize)) with O by lia.
  reflexivity.
Qed.

End ReceivedMsgIdsFacts.

(** ** ResponseNeedsAck *)

Section ResponseNeedsAckFacts.

Implicit Types (response : SerializedMessage).

Lemma land_1_odd (z : Z) : nonzero (Z.land z 1) = Z.odd z.
Proof.
  unfold nonzero. change 1 with (Z.ones 1). rewrite Z.land_ones by lia.
  change (2 ^ 1) with 2. rewrite Zmod_odd. now destruct (Z.odd z).
Qed.

Lemma ResponseNeedsAck_long response :
  8 <= Z.of_nat (length response) ->
  ResponseNeedsAck response =
  MkRun [6%nat] (Some (Z.odd (to_uint32 (nth 6 response 0)))).
Proof.
  intro Hlen. unfold ResponseNeedsAck, read_uint32.
  destruct (Z.ltb_spec (Z.of_nat (length response)) 8) as [Hlt|_]; [lia|].
  assert (H6 : (6 < length response)%nat) by lia.
  rewrite (nth_error_nth' response 0 H6). cbn [option_map]. cbv iota beta.
  rewrite land_1_odd. now destruct (Z.odd _).
Qed.

(** C8. On a response of at least 8 elements [ResponseNeedsAck] reads
    element 6 and nothing else, and returns [true] exactly when the lowest
    bit of that element, taken as [uint32], is 1; two such responses with
    the same element 6 give the same answer. *)
Theorem ResponseNeedsAck_is_low_bit_of_seqNo response :
  8 <= Z.of_nat (length response) ->
  let seqNo := to_uint32 (nth 6 response 0) in
  result (ResponseNeedsAck response) = Some (Z.testbit seqNo 0) /\
  (result (ResponseNeedsAck response) = Some true <-> seqNo mod 2 = 1) /\
  reads (ResponseNeedsAck response) = [6%nat] /\
  (forall other : SerializedMessage,
     8 <= Z.of_nat (length other) ->
     nth 6 other 0 = nth 6 response 0 ->
     ResponseNeedsAck other = ResponseNeedsAck response).
Proof.
  intro Hlen. cbv zeta. rewrite (ResponseNeedsAck_long response Hlen).
  cbn [result reads]. rewrite Z.bit0_odd. split; [reflexivity|]. split; [|split; [reflexivity|]].
  - rewrite Zmod_odd. destruct (Z.odd _); split; congruence.
  - intros other Hother Hsame.
    rewrite (ResponseNeedsAck_long other Hother). now rewrite Hsame.
Qed.

(** C9. On a response of fewer than 8 elements [ResponseNeedsAck] returns
    [false] and reads no element. On every response it returns a result,
    and each element it reads lies inside the buffer. *)
Theorem ResponseNeedsAck_never_reads_outside response :
  (Z.of_nat (length response) < 8 ->
     ResponseNeedsAck response = MkRun [] (Some false)) /\
  (exists b, result (ResponseNeedsAck response) = Some b) /\
  Forall (fun index => (index < length response)%nat)
    (reads (ResponseNeedsAck response)).
Proof.
  destruct (Z.ltb_spec (Z.of_nat (length response)) 8) as [Hlt|Hge].
  - assert (E : ResponseNeedsAck response = MkRun [] (Some false)).
    { unfold ResponseNeedsAck.
      destruct (Z.ltb_spec (Z.of_nat (length response)) 8); [reflexivity|lia]. }
    rewrite E. simpl. split; [reflexivity|]. split; [now exists false|constructor].
  - rewrite (ResponseNeedsAck_long response Hge). simpl.
    split; [lia|]. split; [eexists; reflexivity|].
    constructor; [lia|constructor].
Qed.

End ResponseNeedsAckFacts.

(** ** SessionData *)

Section SessionDataFacts.

Import SessionData.

Implicit Types (d : SessionData.t) (session salt : Z) (key : AuthKeyPtr).

(** C6. [setSession(session)] with an id other than the current one makes
    it the session id and resets [_messagesSent] to 0, leaving every other
    member as it was; with the current id it changes nothing. *)
Theorem setSession_resets_counter_on_new_id session d :
  (session <> _session d ->
     _session (setSession session d) = session /\
     _messagesSent (setSession session d) = 0 /\
     setSession session d = set_messagesSent 0 (set_session session d)) /\
  (session = _session d -> setSession session d = d).
Proof.
  unfold setSession.
  destruct (Z.eqb_spec (_session d) session) as [E|N]; simpl.
  - split; [intro H; congruence|reflexivity].
  - split; [intros _; repeat split|intro H; congruence].
Qed.

(** C10. [setSalt(salt)] stores the salt and changes no other member. *)
Theorem setSalt_changes_only_salt salt d :
  _salt (setSalt salt d) = salt /\
  _session (setSalt salt d) = _session d /\
  _messagesSent (setSalt salt d) = _messagesSent d /\
  _layerInited (setSalt salt d) = _layerInited d /\
  _keyChecked (setSalt salt d) = _keyChecked d /\
  _authKey (setSalt salt d) = _authKey d /\
  _toSend (setSalt salt d) = _toSend d /\
  _haveSent (setSalt salt d) = _haveSent d /\
  _toResend (setSalt salt d) = _toResend d /\
  _receivedIds (setSalt salt d) = _receivedIds d /\
  _wereAcked (setSalt salt d) = _wereAcked d /\
  _stateRequest (setSalt salt d) = _stateRequest d /\
  _receivedResponses (setSalt salt d) = _receivedResponses d /\
  _receivedUpdates (setSalt salt d) = _receivedUpdates d.
Proof. repeat split. Qed.

(** The result of [setKey], by cases on the key and on the id drawn. *)
Lemma setKey_cases session key d :
  setKey session key d =
  if _authKey d =? key then d
  else if _session d =? session then set_layerInited false (set_authKey key d)
  else set_layerInited false
         (set_messagesSent 0 (set_session session (set_authKey key d))).
Proof.
  unfold setKey.
  destruct (_authKey d =? key); simpl; [reflexivity|].
  now destruct (_session d =? session).
Qed.

(** C3, as the code has it. [setKey(key)] with a key other than the stored
    one stores it and sets [_layerInited] to false; the session id it draws
    becomes the session id, with [_messagesSent] reset to 0, when it differs
    from the current id, and otherwise session id and [_messagesSent] stay.
    No other member changes. With the stored key [setKey] changes nothing. *)
Theorem setKey_new_key_draws_session session key d :
  (key <> _authKey d ->
     _authKey (setKey session key d) = key /\
     _layerInited (setKey session key d) = false /\
     (session <> _session d ->
        _session (setKey session key d) = session /\
        _messagesSent (setKey session key d) = 0) /\
     (session = _session d ->
        _session (setKey session key d) = _session d /\
        _messagesSent (setKey session key d) = _messagesSent d) /\
     _salt (setKey session key d) = _salt d /\
     _keyChecked (setKey session key d) = _keyChecked d /\
     _toSend (setKey session key d) = _toSend d /\
     _haveSent (setKey session key d) = _haveSent d /\
     _toResend (setKey session key d) = _toResend d /\
     _receivedIds (setKey session key d) = _receivedIds d /\
     _wereAcked (setKey session key d) = _wereAcked d /\
     _stateRequest (setKey session key d) = _stateRequest d /\
     _receivedResponses (setKey session key d) = _receivedResponses d /\
     _receivedUpdates (setKey session key d) = _receivedUpdates d) /\
  (key = _authKey d -> setKey session key d = d).
Proof.
  rewrite setKey_cases.
  destruct (Z.eqb_spec (_authKey d) key) as [E|N].
  - split; [intro H; congruence|reflexivity].
  - split; [intros _|intro H; congruence].
    destruct (Z.eqb_spec (_session d) session) as [Es|Ns]; simpl;
      repeat split; intros; congruence.
Qed.

End SessionDataFacts.

(** ** Sequence numbers *)

Section SeqNumberFacts.

Import SessionData.

Implicit Types (d : SessionData.t) (needAck : bool) (count : nat).

Lemma to_uint32_small (z : Z) : 0 <= z < uint32_modulus -> to_uint32 z = z.
Proof. intro H. unfold to_uint32. now apply Z.mod_small. Qed.

Lemma set_messagesSent_same d : set_messagesSent (_messagesSent d) d = d.
Proof. now destruct d. Qed.

Lemma nextRequestSeqNumber_eq needAck d :
  nextRequestSeqNumber needAck d =
  (to_uint32 (_messagesSent d * 2 + (if needAck then 1 else 0)),
   set_messagesSent (to_uint32 (_messagesSent d + (if needAck then 1 else 0))) d).
Proof. reflexivity. Qed.

(** The number returned and the counter left are [uint32] values. *)
Lemma nextRequestSeqNumber_in_range needAck d :
  0 <= fst (nextRequestSeqNumber needAck d) < uint32_modulus /\
  0 <= _messagesSent (snd (nextRequestSeqNumber needAck d)) < uint32_modulus.
Proof.
  rewrite nextRequestSeqNumber_eq. cbn [fst snd]. unfold to_uint32.
  split; apply Z.mod_pos_bound; reflexivity.
Qed.

(** Below [2^31] nothing wraps. *)
Lemma nextRequestSeqNumber_below needAck d :
  0 <= _messagesSent d < 2 ^ 31 ->
  nextRequestSeqNumber needAck d =
  (_messagesSent d * 2 + (if needAck then 1 else 0),
   set_messagesSent (_messagesSent d + (if needAck then 1 else 0)) d).
Proof.
  intro H. rewrite nextRequestSeqNumber_eq.
  rewrite !to_uint32_small; [reflexivity| |];
    unfold uint32_modulus; destruct needAck; lia.
Qed.

(** Calls that need an ack, while the counter stays within [2^31]. *)
Lemma nextRequestSeqNumbers_acked count : forall d,
  0 <= _messagesSent d ->
  _messagesSent d + Z.of_nat count <= 2 ^ 31 ->
  nextRequestSeqNumbers true count d =
  (map (fun i => 2 * (_messagesSent d + Z.of_nat i) + 1) (seq 0 count),
   set_messagesSent (_messagesSent d + Z.of_nat count) d).
Proof.
  induction count as [|n IH]; intros d Hlo Hhi.
  - cbn [nextRequestSeqNumbers seq map]. f_equal.
    rewrite Z.add_0_r. symmetry. apply set_messagesSent_same.
  - cbn [nextRequestSeqNumbers].
    rewrite (@nextRequestSeqNumber_below true d) by lia.
    set (d1 := set_messagesSent (_messagesSent d + 1) d).
    assert (Hd1 : _messagesSent d1 = _messagesSent d + 1) by reflexivity.
    rewrite (IH d1) by (rewrite Hd1; lia).
    rewrite Hd1. cbn [seq map]. f_equal.
    + f_equal; [lia|].
      rewrite <- seq_shift, map_map. apply map_ext. intro i. lia.
    + subst d1. replace (_messagesSent d + 1 + Z.of_nat n)
        with (_messagesSent d + Z.of_nat (S n)) by lia.
      reflexivity.
Qed.

(** C2, as the code has it. [nextRequestSeqNumber(needAck)] computes in
    [uint32]: it returns [counter*2 + (needAck ? 1 : 0)] modulo [2^32] and
    adds [needAck ? 1 : 0] to the counter modulo [2^32], changing no other
    member; while the counter is below [2^31] these are the exact values.
    With [needAck] false the state is unchanged. From fresh session data,
    [count <= 2^31] calls with [needAck] true return 1, 3, ...,
    [2*count - 1] and leave the counter at [count]. *)
Theorem nextRequestSeqNumber_counts_modulo needAck count d :
  0 <= _messagesSent d < uint32_modulus ->
  let counter := _messagesSent d in
  let ack := if needAck then 1 else 0 in
  nextRequestSeqNumber needAck d =
    ((counter * 2 + ack) mod 2 ^ 32,
     set_messagesSent ((counter + ack) mod 2 ^ 32) d) /\
  (counter < 2 ^ 31 ->
     nextRequestSeqNumber needAck d =
       (counter * 2 + ack, set_messagesSent (counter + ack) d)) /\
  nextRequestSeqNumber false d = ((2 * counter) mod 2 ^ 32, d) /\
  (Z.of_nat count <= 2 ^ 31 ->
     nextRequestSeqNumbers true count init =
       (map (fun i => 2 * Z.of_nat i - 1) (seq 1 count),
        set_messagesSent (Z.of_nat count) init)).
Proof.
  intro Hrange. cbv zeta. split; [reflexivity|]. split; [|split].
  - intro Hlt. apply nextRequestSeqNumber_below. lia.
  - rewrite nextRequestSeqNumber_eq. f_equal.
    + unfold to_uint32, uint32_modulus. f_equal. lia.
    + rewrite Z.add_0_r, to_uint32_small by exact Hrange.
      apply set_messagesSent_same.
  - intro Hcount.
    rewrite (nextRequestSeqNumbers_acked count init)
      by (change (_messagesSent init) with 0; lia).
    change (_messagesSent init) with 0. f_equal.
    rewrite <- seq_shift, map_map. apply map_ext. intro i. lia.
Qed.

End SeqNumberFacts.

(** * The operations at concrete inputs *)

Section Scenarios.

Import ReceivedMsgIds.

(** Capacity 3: ids 1, 2, 3 and 4 are registered in this order, the window
    is shrunk, and id 1 is then refused. *)
Example register_four_ids_and_shrink :
  let w1 := snd (registerMsgId 3 1 true (Build [])) in
  let w2 := snd (registerMsgId 3 2 false w1) in
  let w3 := snd (registerMsgId 3 3 true w2) in
  let w4 := snd (registerMsgId 3 4 true w3) in
  _idsNeedAck w4 = [(1, true); (2, false); (3, true); (4, true)] /\
  _idsNeedAck (shrink 3 w4) = [(2, false); (3, true); (4, true)] /\
  registerMsgId 3 1 true (shrink 3 w4) = (false, shrink 3 w4).
Proof. repeat split. Qed.

Example register_100 :
  let w := snd (registerMsgId 3 100 true (Build [])) in
  lookup 100 w = NeedsAck /\
  fst (registerMsgId 3 100 false w) = false /\
  lookup 100 (snd (registerMsgId 3 100 false w)) = NeedsAck.
Proof. repeat split. Qed.

Example first_sequence_numbers :
  let (first, d1) := SessionData.nextRequestSeqNumber true SessionData.init in
  let (second, d2) := SessionData.nextRequestSeqNumber false d1 in
  first = 1 /\ second = 2 /\ SessionData._messagesSent d2 = 1.
Proof. repeat split. Qed.

(** The witness of C4: capacity 3 and the window of ids 1 to 4. *)
Lemma shrink_keeps_largest_witness :
  let four_ids := Build [(1, true); (2, false); (3, true); (4, true)] in
  0 <= 3 /\
  QMap.wf (_idsNeedAck four_ids) /\
  QMap.size (_idsNeedAck (shrink 3 four_ids)) <= 3 /\
  QMap.size (_idsNeedAck (shrink 3 four_ids)) =
    Z.min (QMap.size (_idsNeedAck four_ids)) 3 /\
  QMap.wf (_idsNeedAck (shrink 3 four_ids)).
Proof.
  intro four_ids.
  assert (Hcap : 0 <= 3) by lia.
  assert (Hwf : QMap.wf (_idsNeedAck four_ids)) by reflexivity.
  destruct (@shrink_keeps_largest 3 four_ids Hcap Hwf)
    as (Hle & Hmin & _ & Hwf' & _).
  split; [exact Hcap|]. split; [exact Hwf|].
  split; [exact Hle|]. split; [exact Hmin|exact Hwf'].
Defined.


(** The witness of C8: a response of 8 elements whose element 6 is 5. *)
Lemma ResponseNeedsAck_is_low_bit_of_seqNo_witness :
  let response := [0; 0; 0; 0; 0; 0; 5; 0] in
  8 <= Z.of_nat (length response) /\
  result (ResponseNeedsAck response) = Some true /\
  reads (ResponseNeedsAck response) = [6%nat].
Proof.
  cbv zeta.
  assert (Hlen : 8 <= Z.of_nat (length [0; 0; 0; 0; 0; 0; 5; 0])) by (simpl; lia).
  destruct (ResponseNeedsAck_is_low_bit_of_seqNo [0; 0; 0; 0; 0; 0; 5; 0] Hlen)
    as (Hres & _ & Hreads & _).
  split; [exact Hlen|]. split; [exact Hres|exact Hreads].
Defined.

(** The witness of C2: three calls on fresh session data. *)
Lemma nextRequestSeqNumber_counts_modulo_witness :
  0 <= SessionData._messagesSent SessionData.init < uint32_modulus /\
  SessionData.nextRequestSeqNumbers true 3 SessionData.init =
    ([1; 3; 5], SessionData.set_messagesSent 3 SessionData.init) /\
  SessionData.nextRequestSeqNumber false SessionData.init =
    (0, SessionData.init).
Proof.
  assert (Hrange : 0 <= SessionData._messagesSent SessionData.init < uint32_modulus)
    by (unfold uint32_modulus; simpl; lia).
  destruct (@nextRequestSeqNumber_counts_modulo true 3 SessionData.init Hrange)
    as (_ & _ & Hfalse & Hseq).
  split; [exact Hrange|]. split; [|exact Hfalse].
  apply Hseq. simpl. lia.
Defined.

(** C2 fails as stated: after [2^31] calls that need an ack the counter is
    [2^31], and the next call returns 1, not [2 * (2^31 + 1) - 1]; a call
    that needs no ack returns 0, which is not twice the counter. *)
Lemma nextRequestSeqNumber_wraps_at_2_31 :
  let d := SessionData.set_messagesSent (2 ^ 31) SessionData.init in
  snd (SessionData.nextRequestSeqNumbers true (Z.to_nat (2 ^ 31)) SessionData.init)
    = d /\
  fst (SessionData.nextRequestSeqNumber true d) = 1 /\
  fst (SessionData.nextRequestSeqNumber true d)
    <> SessionData._messagesSent d * 2 + 1 /\
  fst (SessionData.nextRequestSeqNumber false d) = 0 /\
  fst (SessionData.nextRequestSeqNumber false d)
    <> 2 * SessionData._messagesSent d.
Proof.
  cbv zeta. split.
  - rewrite nextRequestSeqNumbers_acked.
    + cbn [snd]. change (SessionData._messagesSent SessionData.init) with 0.
      rewrite Z2Nat.id by lia. reflexivity.
    + change (SessionData._messagesSent SessionData.init) with 0. lia.
    + change (SessionData._messagesSent SessionData.init) with 0.
      rewrite Z2Nat.id by lia. lia.
  - repeat split; try reflexivity; vm_compute; discriminate.
Qed.

(** C3 fails as stated: session data whose key is 1, whose session id is 7
    and which has sent five messages that need an ack is given the key 2
    while the id drawn is 7 again; the session id is not new and
    [_messagesSent] is still 5. *)
Lemma setKey_may_keep_session :
  let d :=
    snd (SessionData.nextRequestSeqNumbers true 5
           (SessionData.setKey 7 1 SessionData.init)) in
  SessionData._authKey d = 1 /\
  SessionData._session d = 7 /\
  SessionData._authKey (SessionData.setKey 7 2 d) = 2 /\
  SessionData._session (SessionData.setKey 7 2 d) = SessionData._session d /\
  SessionData._messagesSent (SessionData.setKey 7 2 d) = 5.
Proof. repeat split. Qed.

End Scenarios.

(** * Further properties *)

(** ** QMap: the last key, maps cut in two, insertions in either order *)

Section QMapMoreFacts.

Variable V : Type.

Implicit Types (m front back : QMap.t V) (k key : Z) (v value : V).

Lemma last_key_app front back :
  back <> [] -> QMap.last_key (front ++ back) = QMap.last_key back.
Proof.
  intro Hne. unfold QMap.last_key. rewrite rev_app_distr.
  destruct (rev back) as [|e r] eqn:E; [|reflexivity].
  exfalso. apply Hne. rewrite <- (rev_involutive back), E. reflexivity.
Qed.

Lemma last_key_cons k v m :
  m <> [] -> QMap.last_key ((k, v) :: m) = QMap.last_key m.
Proof. intro Hne. exact (last_key_app [(k, v)] Hne). Qed.

(** In a well-formed map that is not empty the last key is the greatest. *)
Lemma last_key_greatest m :
  QMap.wf m -> m <> [] ->
  exists k, QMap.last_key m = Some k /\ In k (QMap.keys m) /\
            forall k', In k' (QMap.keys m) -> k' <= k.
Proof.
  induction m as [|[k0 v0] m IH]; intros Hwf Hne; [congruence|].
  destruct m as [|e m'].
  - exists k0. split; [reflexivity|]. split; [now left|].
    simpl. intros k' [<-|[]]. lia.
  - apply wf_cons in Hwf. destruct Hwf as [Hall Hwf].
    destruct (IH Hwf) as (k & Hlast & Hin & Hmax); [discriminate|].
    exists k. rewrite last_key_cons by discriminate.
    split; [exact Hlast|]. split; [now right|].
    intros k' Hk'. change (k0 = k' \/ In k' (QMap.keys (e :: m'))) in Hk'.
    destruct Hk' as [<-|Hk'].
    + specialize (Hall k Hin). lia.
    + now apply Hmax.
Qed.

Lemma constFind_app key front back :
  QMap.constFind key (front ++ back) =
  match QMap.constFind key front with
  | Some value => Some value
  | None => QMap.constFind key back
  end.
Proof.
  induction front as [|[k v] front IH]; simpl; [reflexivity|].
  now destruct (key =? k).
Qed.

Lemma constFind_Some_In key value m :
  QMap.constFind key m = Some value -> In key (QMap.keys m).
Proof.
  intro H. destruct (in_dec Z.eq_dec key (QMap.keys m)) as [Hin|Hnot];
    [exact Hin|].
  apply constFind_None in Hnot. congruence.
Qed.

(** Two insertions under different keys give the same map in either
    order. *)
Lemma insert_insert key1 value1 key2 value2 m :
  key1 <> key2 ->
  QMap.insert key1 value1 (QMap.insert key2 value2 m) =
  QMap.insert key2 value2 (QMap.insert key1 value1 m).
Proof.
  intro Hne. induction m as [|[k v] m IH]; simpl.
  - destruct (Z.ltb_spec key1 key2), (Z.ltb_spec key2 key1),
      (Z.eqb_spec key1 key2), (Z.eqb_spec key2 key1);
      try lia; reflexivity.
  - destruct (Z.ltb_spec key1 k), (Z.ltb_spec key2 k),
      (Z.eqb_spec key1 k), (Z.eqb_spec key2 k); simpl;
      repeat match goal with
        | |- context [?a <? ?b] => destruct (Z.ltb_spec a b); try lia
        | |- context [?a =? ?b] => destruct (Z.eqb_spec a b); try lia
        end;
      simpl; try reflexivity; try lia; try (f_equal; exact IH).
Qed.

End QMapMoreFacts.

(** ** ReceivedMsgIds: minimum, maximum and clearing *)

Section WindowBounds.

Import ReceivedMsgIds.

Variable MTPIdsBufferSize : Z.

Implicit Types (w : ReceivedMsgIds.t) (msgId : Z) (needAck : bool).

Lemma insert_not_empty (V : Type) key (value : V) (m : QMap.t V) :
  QMap.insert key value m <> [].
Proof.
  destruct m as [|[k v] m]; simpl; [discriminate|].
  destruct (key <? k); [discriminate|]. destruct (key =? k); discriminate.
Qed.

(** [max()] of a well-formed window that is not empty is its greatest id. *)
Lemma max_greatest w :
  QMap.wf (_idsNeedAck w) -> _idsNeedAck w <> [] ->
  In (max w) (QMap.keys (_idsNeedAck w)) /\
  forall k, In k (QMap.keys (_idsNeedAck w)) -> k <= max w.
Proof.
  intros Hwf Hne. destruct (last_key_greatest Hwf Hne) as (k & Hlast & Hin & Hmax).
  unfold max. rewrite Hlast.
  destruct (_idsNeedAck w); [congruence|]. simpl. now split.
Qed.

Lemma empty_or_not w : _idsNeedAck w = [] \/ _idsNeedAck w <> [].
Proof. destruct (_idsNeedAck w); [now left|right; discriminate]. Qed.

Lemma min_max_empty w : _idsNeedAck w = [] -> min w = 0 /\ max w = 0.
Proof. intro E. unfold min, max. rewrite E. now split. Qed.

(** [min()] and [max()] once an entry was inserted. *)
Lemma min_max_insert msgId needAck w :
  QMap.wf (_idsNeedAck w) ->
  let w' := Build (QMap.insert msgId needAck (_idsNeedAck w)) in
  (_idsNeedAck w = [] -> min w' = msgId /\ max w' = msgId) /\
  (_idsNeedAck w <> [] ->
     min w' = Z.min (min w) msgId /\ max w' = Z.max (max w) msgId).
Proof.
  intros Hwf w'. split.
  - intro E. subst w'. rewrite E. now split.
  - intro Hne.
    assert (Hwf' : QMap.wf (_idsNeedAck w'))
      by (apply wf_insert; exact Hwf).
    assert (Hne' : _idsNeedAck w' <> []) by apply insert_not_empty.
    destruct (min_least w Hwf Hne) as [Hmin_in Hmin].
    destruct (max_greatest w Hwf Hne) as [Hmax_in Hmax].
    destruct (min_least w' Hwf' Hne') as [Hmin_in' Hmin'].
    destruct (max_greatest w' Hwf' Hne') as [Hmax_in' Hmax'].
    assert (Hkeys : forall k, In k (QMap.keys (_idsNeedAck w')) <->
                              k = msgId \/ In k (QMap.keys (_idsNeedAck w)))
      by (intro k; apply keys_insert).
    pose proof (Hmin' msgId (proj2 (Hkeys msgId) (or_introl eq_refl))).
    pose proof (Hmax' msgId (proj2 (Hkeys msgId) (or_introl eq_refl))).
    pose proof (Hmin' (min w) (proj2 (Hkeys _) (or_intror Hmin_in))).
    pose proof (Hmax' (max w) (proj2 (Hkeys _) (or_intror Hmax_in))).
    apply Hkeys in Hmin_in'. apply Hkeys in Hmax_in'.
    split.
    + destruct Hmin_in' as [E|Hin]; [lia|]. specialize (Hmin _ Hin). lia.
    + destruct Hmax_in' as [E|Hin]; [lia|]. specialize (Hmax _ Hin). lia.
Qed.

(** X1. [min()] and [max()] return 0 on an empty window; on a window that
    is not empty they return ids of the window, the least and the
    greatest one. *)
Theorem min_max_bound_the_window w :
  QMap.wf (_idsNeedAck w) ->
  (_idsNeedAck w = [] -> min w = 0 /\ max w = 0) /\
  (_idsNeedAck w <> [] ->
     lookup (min w) w <> NotFound /\
     lookup (max w) w <> NotFound /\
     forall k, lookup k w <> NotFound -> min w <= k <= max w).
Proof.
  intro Hwf. split; [apply min_max_empty|]. intro Hne.
  destruct (min_least w Hwf Hne) as [Hmin_in Hmin].
  destruct (max_greatest w Hwf Hne) as [Hmax_in Hmax].
  assert (Hfound : forall k, lookup k w <> NotFound <->
                             In k (QMap.keys (_idsNeedAck w))).
  { intro k. rewrite lookup_NotFound.
    destruct (in_dec Z.eq_dec k (QMap.keys (_idsNeedAck w))); tauto. }
  split; [now apply Hfound|]. split; [now apply Hfound|].
  intros k Hk. apply Hfound in Hk. split; [now apply Hmin|now apply Hmax].
Qed.

(** X2. After [clear()] no id is found, [min()] and [max()] are 0, and
    [registerMsgId] accepts every id when [MTPIdsBufferSize] is positive,
    and every positive id whatever the capacity; the window then holds
    that id alone. *)
Theorem clear_forgets_every_id msgId needAck w :
  lookup msgId (clear w) = NotFound /\
  min (clear w) = 0 /\
  max (clear w) = 0 /\
  (0 < MTPIdsBufferSize \/ 0 < msgId ->
     registerMsgId MTPIdsBufferSize msgId needAck (clear w) =
       (true, Build [(msgId, needAck)])) /\
  (MTPIdsBufferSize <= 0 -> msgId <= 0 ->
     registerMsgId MTPIdsBufferSize msgId needAck (clear w) = (false, clear w)).
Proof.
  split; [reflexivity|]. split; [reflexivity|]. split; [reflexivity|].
  unfold registerMsgId, clear, min. simpl. unfold QMap.size. simpl.
  split.
  - intros [Hcap|Hid].
    + destruct (Z.ltb_spec 0 MTPIdsBufferSize); [reflexivity|lia].
    + destruct (Z.gtb_spec msgId 0); [|lia].
      now rewrite orb_true_r.
  - intros Hcap Hid.
    destruct (Z.ltb_spec 0 MTPIdsBufferSize); [lia|].
    destruct (Z.gtb_spec msgId 0); [lia|reflexivity].
Qed.

(** X3. An id above [max()] is always accepted, whatever the size of the
    window, and is the new [max()]. *)
Theorem registerMsgId_accepts_id_above_max msgId needAck w :
  QMap.wf (_idsNeedAck w) ->
  max w < msgId ->
  registerMsgId MTPIdsBufferSize msgId needAck w =
    (true, Build (QMap.insert msgId needAck (_idsNeedAck w))) /\
  max (snd (registerMsgId MTPIdsBufferSize msgId needAck w)) = msgId.
Proof.
  intros Hwf Habove.
  assert (Hmin : min w < msgId).
  { destruct (empty_or_not w) as [E|Hne].
    - destruct (min_max_empty w E). lia.
    - destruct (min_least w Hwf Hne) as [Hin _].
      destruct (max_greatest w Hwf Hne) as [_ Hmax].
      specialize (Hmax _ Hin). lia. }
  assert (Hnew : ~ In msgId (QMap.keys (_idsNeedAck w))).
  { intro Hin.
    assert (Hne : _idsNeedAck w <> [])
      by (intro E; rewrite E in Hin; exact Hin).
    destruct (max_greatest w Hwf Hne) as [_ Hmax].
    specialize (Hmax _ Hin). lia. }
  destruct (registerMsgId_cases MTPIdsBufferSize msgId needAck w)
    as [(_ & _ & ->)|(Hno & _)].
  - split; [reflexivity|]. cbn [snd].
    destruct (min_max_insert msgId needAck w Hwf) as [Hempty Hfull].
    destruct (empty_or_not w) as [E|Hne].
    + now apply Hempty.
    + destruct (Hfull Hne) as [_ ->]. lia.
  - exfalso. apply Hno. split; [exact Hnew|]. right. lia.
Qed.

(** X4. What a registration that succeeds does to [min()] and [max()]:
    into an empty window both become the new id; otherwise they become the
    smaller, respectively the greater, of the old value and the new id; and
    once the window holds [MTPIdsBufferSize] ids or more, [min()] does not
    change. *)
Theorem registerMsgId_moves_min_max msgId needAck w w' :
  QMap.wf (_idsNeedAck w) ->
  registerMsgId MTPIdsBufferSize msgId needAck w = (true, w') ->
  (_idsNeedAck w = [] -> min w' = msgId /\ max w' = msgId) /\
  (_idsNeedAck w <> [] ->
     min w' = Z.min (min w) msgId /\ max w' = Z.max (max w) msgId) /\
  (_idsNeedAck w <> [] ->
     MTPIdsBufferSize <= QMap.size (_idsNeedAck w) -> min w' = min w).
Proof.
  intros Hwf Hreg.
  destruct (registerMsgId_cases MTPIdsBufferSize msgId needAck w)
    as [(_ & Hadm & E)|(_ & E)]; rewrite E in Hreg; [|discriminate].
  injection Hreg as <-.
  destruct (min_max_insert msgId needAck w Hwf) as [Hempty Hfull].
  split; [exact Hempty|]. split; [exact Hfull|].
  intros Hne Hsize. destruct (Hfull Hne) as [-> _]. lia.
Qed.

End WindowBounds.

(** ** ReceivedMsgIds: shrinking and registering together *)

Section WindowShrink.

Import ReceivedMsgIds.

Variable MTPIdsBufferSize : Z.

Implicit Types (w : ReceivedMsgIds.t) (msgId : Z) (needAck : bool).

Lemma window_eq w1 w2 : _idsNeedAck w1 = _idsNeedAck w2 -> w1 = w2.
Proof. destruct w1, w2. simpl. now intros ->. Qed.

(** What [shrink()] evicts and what it keeps. *)
Lemma shrink_split w :
  0 <= MTPIdsBufferSize ->
  exists front,
    _idsNeedAck w = front ++ _idsNeedAck (shrink MTPIdsBufferSize w) /\
    Z.of_nat (length front) =
      Z.max 0 (QMap.size (_idsNeedAck w) - MTPIdsBufferSize) /\
    QMap.size (_idsNeedAck (shrink MTPIdsBufferSize w)) =
      Z.min (QMap.size (_idsNeedAck w)) MTPIdsBufferSize.
Proof.
  intro Hcap. destruct w as [m]. unfold shrink. cbn [_idsNeedAck].
  rewrite (shrink_loop_skipn m Hcap).
  set (n := Z.to_nat (QMap.size m - MTPIdsBufferSize)).
  exists (firstn n m). split; [symmetry; apply firstn_skipn|].
  unfold QMap.size in *. rewrite length_firstn, length_skipn. subst n. lia.
Qed.

Lemma lookup_constFind msgId w :
  lookup msgId w =
  match QMap.constFind msgId (_idsNeedAck w) with
  | None => NotFound
  | Some value => if value then NeedsAck else NoAckNeeded
  end.
Proof. reflexivity. Qed.

(** X5. A window within its capacity takes a new id and is shrunk: the
    id is still found, with its flag, and the window is within its capacity
    again. If there was room nothing is evicted; if the window was full,
    the id evicted is the old [min()]. *)
Theorem registered_id_survives_shrink msgId needAck w w' :
  QMap.wf (_idsNeedAck w) ->
  1 <= MTPIdsBufferSize ->
  QMap.size (_idsNeedAck w) <= MTPIdsBufferSize ->
  registerMsgId MTPIdsBufferSize msgId needAck w = (true, w') ->
  lookup msgId (shrink MTPIdsBufferSize w') =
    (if needAck then NeedsAck else NoAckNeeded) /\
  QMap.size (_idsNeedAck (shrink MTPIdsBufferSize w')) <= MTPIdsBufferSize /\
  (QMap.size (_idsNeedAck w) < MTPIdsBufferSize ->
     shrink MTPIdsBufferSize w' = w') /\
  (QMap.size (_idsNeedAck w) = MTPIdsBufferSize ->
     lookup (min w) (shrink MTPIdsBufferSize w') = NotFound).
Proof.
  intros Hwf Hcap Hsize Hreg.
  destruct (registerMsgId_cases MTPIdsBufferSize msgId needAck w)
    as [(Hnew & Hadm & E)|(_ & E)]; rewrite E in Hreg; [|discriminate].
  injection Hreg as <-. clear E.
  assert (Hgrow : QMap.size (QMap.insert msgId needAck (_idsNeedAck w)) =
                  QMap.size (_idsNeedAck w) + 1)
    by (apply size_insert_new; now apply constFind_None).
  destruct w as [m]. cbn [_idsNeedAck] in *.
  unfold shrink. cbn [_idsNeedAck].
  rewrite shrink_loop_skipn by lia.
  rewrite Hgrow.
  destruct (Z.eq_dec (QMap.size m) MTPIdsBufferSize) as [Hfull|Hroom].
  - replace (Z.to_nat (QMap.size m + 1 - MTPIdsBufferSize)) with 1%nat by lia.
    destruct m as [|[k0 v0] r]; [unfold QMap.size in Hfull; simpl in Hfull; lia|].
    assert (Hgt : msgId > k0).
    { destruct Hadm as [Hlt|Hgt]; [lia|exact Hgt]. }
    assert (Hins : QMap.insert msgId needAck ((k0, v0) :: r) =
                   (k0, v0) :: QMap.insert msgId needAck r).
    { simpl. destruct (Z.ltb_spec msgId k0); [lia|].
      destruct (Z.eqb_spec msgId k0); [lia|reflexivity]. }
    rewrite Hins. cbn [skipn].
    apply wf_cons in Hwf. destruct Hwf as [Hall Hwf].
    split; [rewrite lookup_constFind; cbn [_idsNeedAck];
            now rewrite constFind_insert_same|].
    split.
    { pose proof (@size_insert_new bool msgId needAck r) as Hr.
      assert (Hnone : QMap.constFind msgId r = None).
      { apply constFind_None. intro Hin. apply Hnew. now right. }
      specialize (Hr Hnone). unfold QMap.size in *. simpl length in *. lia. }
    split; [intro; lia|]. intros _.
    change (min (Build ((k0, v0) :: r))) with k0.
    rewrite lookup_constFind. cbn [_idsNeedAck].
    rewrite constFind_insert_other by lia.
    assert (Hnone : QMap.constFind k0 r = None).
    { apply constFind_None. intro Hin. specialize (Hall _ Hin). lia. }
    now rewrite Hnone.
  - replace (Z.to_nat (QMap.size m + 1 - MTPIdsBufferSize)) with O by lia.
    cbn [skipn].
    split; [rewrite lookup_constFind; cbn [_idsNeedAck];
            now rewrite constFind_insert_same|].
    split; [lia|]. split; [reflexivity|]. intro; lia.
Qed.

(** X6. [shrink()] twice is [shrink()] once. *)
Theorem shrink_twice w :
  0 <= MTPIdsBufferSize ->
  shrink MTPIdsBufferSize (shrink MTPIdsBufferSize w) =
  shrink MTPIdsBufferSize w.
Proof.
  intro Hcap. destruct (shrink_split w Hcap) as (_ & _ & _ & Hsize).
  destruct (shrink_split (shrink MTPIdsBufferSize w) Hcap)
    as (front & Hsplit & Hfront & _).
  assert (Hnil : front = []).
  { destruct front; [reflexivity|]. simpl length in Hfront. lia. }
  rewrite Hnil in Hsplit. apply window_eq. symmetry. exact Hsplit.
Qed.

(** X7. Looking an id up after [shrink()]: an id below the new [min()] is
    not found, every other id is looked up as before, found or not, with
    the same ack state; if [shrink()] left nothing, no id is found. *)
Theorem lookup_after_shrink msgId w :
  0 <= MTPIdsBufferSize ->
  QMap.wf (_idsNeedAck w) ->
  let w' := shrink MTPIdsBufferSize w in
  (_idsNeedAck w' = [] -> lookup msgId w' = NotFound) /\
  (_idsNeedAck w' <> [] ->
     lookup msgId w' =
       if msgId <? min w' then NotFound else lookup msgId w).
Proof.
  intros Hcap Hwf w'.
  destruct (shrink_split w Hcap) as (front & Hsplit & _ & _).
  fold w' in Hsplit. rewrite Hsplit in Hwf.
  destruct (wf_app _ _ Hwf) as (_ & Hback & Hlt).
  split.
  - intro E. rewrite lookup_constFind, E. reflexivity.
  - intro Hne. destruct (min_least w' Hback Hne) as [Hmin_in Hmin].
    destruct (Z.ltb_spec msgId (min w')) as [Hbelow|Habove].
    + apply lookup_NotFound. intro Hin. specialize (Hmin _ Hin). lia.
    + rewrite !lookup_constFind, Hsplit, constFind_app.
      destruct (QMap.constFind msgId front) as [value|] eqn:Hfront;
        [|reflexivity].
      apply constFind_Some_In in Hfront.
      specialize (Hlt _ _ Hfront Hmin_in). lia.
Qed.

(** X8. [shrink()] with a positive [MTPIdsBufferSize] keeps the greatest
    id, so [max()] is unchanged, and never lowers [min()], which rises
    when an id is evicted. *)
Theorem shrink_keeps_max_raises_min w :
  1 <= MTPIdsBufferSize ->
  QMap.wf (_idsNeedAck w) ->
  max (shrink MTPIdsBufferSize w) = max w /\
  min w <= min (shrink MTPIdsBufferSize w) /\
  (MTPIdsBufferSize < QMap.size (_idsNeedAck w) ->
     min w < min (shrink MTPIdsBufferSize w)).
Proof.
  intros Hcap Hwf.
  assert (Hcap0 : 0 <= MTPIdsBufferSize) by lia.
  destruct (shrink_split w Hcap0) as (front & Hsplit & Hfront & Hsize).
  set (w' := shrink MTPIdsBufferSize w) in *.
  destruct (empty_or_not w) as [E|Hne].
  - assert (E' : _idsNeedAck w' = []).
    { rewrite E in Hsplit. symmetry in Hsplit.
      now apply app_eq_nil in Hsplit. }
    destruct (min_max_empty w E) as [-> ->].
    destruct (min_max_empty w' E') as [-> ->].
    split; [reflexivity|]. split; [lia|].
    rewrite E. unfold QMap.size. simpl. lia.
  - assert (Hne' : _idsNeedAck w' <> []).
    { intro E'. rewrite E' in Hsize. unfold QMap.size in Hsize.
      destruct (_idsNeedAck w); [congruence|]. simpl length in Hsize. lia. }
    pose proof Hwf as Hwf0. rewrite Hsplit in Hwf.
    destruct (wf_app _ _ Hwf) as (_ & Hback & Hlt).
    destruct (min_least w Hwf0 Hne) as [Hmin_in Hmin].
    destruct (min_least w' Hback Hne') as [Hmin_in' _].
    split; [|split].
    + unfold max. rewrite Hsplit. rewrite last_key_app by exact Hne'.
      destruct (_idsNeedAck w') as [|e' r']; [congruence|].
      now destruct front.
    + apply Hmin. rewrite Hsplit. unfold QMap.keys. rewrite map_app.
      apply in_or_app. now right.
    + intro Hover. apply Hlt; [|exact Hmin_in'].
      destruct front as [|[k0 v0] f]; [simpl length in Hfront; lia|].
      unfold min. rewrite Hsplit. simpl. now left.
Qed.

(** Registration while there is room. *)
Lemma registerMsgId_with_room msgId needAck w :
  QMap.size (_idsNeedAck w) < MTPIdsBufferSize ->
  snd (registerMsgId MTPIdsBufferSize msgId needAck w) =
  match QMap.constFind msgId (_idsNeedAck w) with
  | None => Build (QMap.insert msgId needAck (_idsNeedAck w))
  | Some _ => w
  end.
Proof.
  intro Hroom. unfold registerMsgId.
  destruct (QMap.constFind msgId (_idsNeedAck w)); [reflexivity|].
  destruct (Z.ltb_spec (QMap.size (_idsNeedAck w)) MTPIdsBufferSize);
    [reflexivity|lia].
Qed.

(** X9. While there is room for two more ids, registering two different
    ids gives the same window in either order. *)
Theorem registerMsgId_order_is_irrelevant_with_room id1 ack1 id2 ack2 w :
  id1 <> id2 ->
  QMap.size (_idsNeedAck w) + 1 < MTPIdsBufferSize ->
  snd (registerMsgId MTPIdsBufferSize id2 ack2
         (snd (registerMsgId MTPIdsBufferSize id1 ack1 w))) =
  snd (registerMsgId MTPIdsBufferSize id1 ack1
         (snd (registerMsgId MTPIdsBufferSize id2 ack2 w))).
Proof.
  intros Hne Hroom.
  assert (Hgrow : forall msgId needAck,
            QMap.size (_idsNeedAck
              (snd (registerMsgId MTPIdsBufferSize msgId needAck w)))
            < MTPIdsBufferSize).
  { intros msgId needAck.
    destruct (registerMsgId_cases MTPIdsBufferSize msgId needAck w)
      as [(Hnew & _ & ->)|(_ & ->)]; cbn [snd _idsNeedAck]; [|lia].
    rewrite size_insert_new by (now apply constFind_None). lia. }
  rewrite (registerMsgId_with_room id2 ack2 _ (Hgrow id1 ack1)).
  rewrite (registerMsgId_with_room id1 ack1 _ (Hgrow id2 ack2)).
  rewrite !(registerMsgId_with_room _ _ w) by lia.
  destruct (QMap.constFind id1 (_idsNeedAck w)) as [v1|] eqn:H1,
           (QMap.constFind id2 (_idsNeedAck w)) as [v2|] eqn:H2;
    cbn [_idsNeedAck].
  - now rewrite ?H1, ?H2.
  - rewrite ?constFind_insert_other by congruence. now rewrite ?H1, ?H2.
  - rewrite ?constFind_insert_other by congruence. now rewrite ?H1, ?H2.
  - rewrite ?constFind_insert_other by congruence. rewrite ?H1, ?H2.
    f_equal. apply insert_insert. congruence.
Qed.

End WindowShrink.

(** ** SessionData: sequence numbers, session and key together *)

Section SessionDataMoreFacts.

Import SessionData.

Implicit Types (d : SessionData.t) (needAck : bool) (session : Z)
  (key : AuthKeyPtr) (response : SerializedMessage).

Lemma odd_to_uint32 (z : Z) : Z.odd (to_uint32 z) = Z.odd z.
Proof.
  unfold to_uint32, uint32_modulus. rewrite <- !Z.bit0_odd.
  apply Z.mod_pow2_bits_low. lia.
Qed.

Lemma odd_seqNo needAck d :
  Z.odd (fst (nextRequestSeqNumber needAck d)) = needAck.
Proof.
  rewrite nextRequestSeqNumber_eq. cbn [fst]. rewrite odd_to_uint32.
  rewrite Z.add_comm, (Z.mul_comm _ 2), Z.odd_add_mul_2. now destruct needAck.
Qed.

(** X10. The lowest bit of the number that [nextRequestSeqNumber(needAck)]
    returns is [needAck], also when the counter wraps; so a message of at
    least 8 elements whose element 6 holds that number is one for which
    [ResponseNeedsAck] returns [needAck]. *)
Theorem ResponseNeedsAck_reads_back_needAck needAck d response :
  8 <= Z.of_nat (length response) ->
  to_uint32 (nth 6 response 0) = fst (nextRequestSeqNumber needAck d) ->
  Z.odd (fst (nextRequestSeqNumber needAck d)) = needAck /\
  result (ResponseNeedsAck response) = Some needAck.
Proof.
  intros Hlen Hfield. split; [apply odd_seqNo|].
  rewrite (ResponseNeedsAck_long response Hlen). cbn [result].
  now rewrite Hfield, odd_seqNo.
Qed.

(** X11. Two calls of [nextRequestSeqNumber] one after the other, while the
    counter stays below [2^31]: the second number is never below the first,
    it is above it when one of the two calls needs an ack, and two calls
    that need no ack return the same number and leave the data as they
    were. *)
Theorem nextRequestSeqNumber_never_goes_back needAck1 needAck2 d :
  0 <= _messagesSent d ->
  _messagesSent d + 1 < 2 ^ 31 ->
  let first := nextRequestSeqNumber needAck1 d in
  let second := nextRequestSeqNumber needAck2 (snd first) in
  fst first <= fst second /\
  (needAck1 || needAck2 = true -> fst first < fst second) /\
  (needAck1 || needAck2 = false ->
     fst first = fst second /\ snd second = d).
Proof.
  intros Hlo Hhi. cbv zeta.
  rewrite (nextRequestSeqNumber_below needAck1 d) by lia. cbn [fst snd].
  rewrite nextRequestSeqNumber_below
    by (cbn [_messagesSent set_messagesSent]; destruct needAck1; lia).
  cbn [fst snd _messagesSent set_messagesSent].
  destruct needAck1, needAck2; cbn [orb];
    (split; [lia|]); (split; [intro; try discriminate; lia|]);
    intro; try discriminate.
  split; [lia|]. rewrite !Z.add_0_r. destruct d. reflexivity.
Qed.

(** X12. Runs of calls from any counter [c], while it stays within [2^31]:
    [count] calls that need an ack return [2c+1], [2c+3], ... and leave the
    counter at [c + count]; [count] calls that need none all return [2c]
    and leave the data as they were. *)
Theorem nextRequestSeqNumbers_from_any_counter count d :
  0 <= _messagesSent d ->
  _messagesSent d + Z.of_nat count <= 2 ^ 31 ->
  _messagesSent d < 2 ^ 31 ->
  nextRequestSeqNumbers true count d =
    (map (fun i => 2 * (_messagesSent d + Z.of_nat i) + 1) (seq 0 count),
     set_messagesSent (_messagesSent d + Z.of_nat count) d) /\
  nextRequestSeqNumbers false count d =
    (repeat (2 * _messagesSent d) count, d).
Proof.
  intros Hlo Hhi Hlt. split; [now apply nextRequestSeqNumbers_acked|].
  clear Hhi. induction count as [|n IH]; [reflexivity|].
  cbn [nextRequestSeqNumbers repeat].
  rewrite (nextRequestSeqNumber_below false d) by lia.
  rewrite Z.add_0_r, set_messagesSent_same, IH. f_equal. f_equal. lia.
Qed.

(** X13. After [setSession(session)] the session id is [session], whether
    it was new or not, and a second [setSession(session)] changes nothing.
    With a new id the numbering starts again: the next sequence number is 1
    for a message that needs an ack and 0 for one that does not. With the
    current id the next sequence number is what it would have been. *)
Theorem setSession_restarts_numbering session needAck d :
  getSession (setSession session d) = session /\
  setSession session (setSession session d) = setSession session d /\
  (session <> _session d ->
     fst (nextRequestSeqNumber needAck (setSession session d)) =
       (if needAck then 1 else 0)) /\
  (session = _session d ->
     nextRequestSeqNumber needAck (setSession session d) =
       nextRequestSeqNumber needAck d).
Proof.
  unfold setSession, getSession.
  destruct (Z.eqb_spec (_session d) session) as [E|N]; cbn [negb].
  - split; [exact E|]. split.
    + destruct (Z.eqb_spec (_session d) session); [reflexivity|contradiction].
    + split; [intro H; congruence|reflexivity].
  - split; [reflexivity|]. split.
    + cbn [_session set_session set_messagesSent]. now rewrite Z.eqb_refl.
    + split; [|intro H; congruence]. intros _. now destruct needAck.
Qed.

(** X14. After [setKey(key)] the key is [key], whether it was new or not,
    and a second [setKey(key)] changes nothing whatever id it would draw.
    With a new key the layer is marked as not initialized even if it was,
    and [setKey] does what storing the key, [setSession] of the id drawn and
    [setLayerWasInited(false)] do in this order; when the id drawn is not the
    current session id the numbering starts again. *)
Theorem setKey_stores_key_and_restarts session session2 key needAck d :
  getKey (setKey session key d) = key /\
  setKey session2 key (setKey session key d) = setKey session key d /\
  (key <> _authKey d ->
     layerWasInited (setKey session key (setLayerWasInited true d)) = false /\
     setKey session key d =
       setLayerWasInited false (setSession session (set_authKey key d)) /\
     (session <> _session d ->
        fst (nextRequestSeqNumber needAck (setKey session key d)) =
          (if needAck then 1 else 0))).
Proof.
  assert (Hkey : getKey (setKey session key d) = key).
  { rewrite setKey_cases. unfold getKey.
    destruct (Z.eqb_spec (_authKey d) key) as [E|N]; [exact E|].
    now destruct (_session d =? session). }
  split; [exact Hkey|]. split.
  - rewrite (setKey_cases session2 key (setKey session key d)).
    unfold getKey in Hkey. rewrite Hkey. now rewrite Z.eqb_refl.
  - intro Hnew. split; [|split].
    + rewrite setKey_cases. unfold layerWasInited, setLayerWasInited.
      cbn [_authKey _session set_layerInited].
      destruct (Z.eqb_spec (_authKey d) key); [congruence|].
      now destruct (_session d =? session).
    + rewrite setKey_cases. unfold setLayerWasInited, setSession.
      cbn [_session set_authKey].
      destruct (Z.eqb_spec (_authKey d) key); [congruence|].
      now destruct (_session d =? session).
    + intro Hdraw. rewrite setKey_cases.
      destruct (Z.eqb_spec (_authKey d) key); [congruence|].
      destruct (Z.eqb_spec (_session d) session); [congruence|].
      now destruct needAck.
Qed.

End SessionDataMoreFacts.

(** ** The further properties at concrete inputs *)

Section MoreScenarios.

Import ReceivedMsgIds.

(** At the capacity the order of two registrations does matter: with
    capacity 2 and the window of id 5, ids 3 and 1 are both kept when 1
    comes first, and 1 is refused when 3 comes first. *)
Example registerMsgId_order_matters_when_full :
  let w := Build [(5, true)] in
  _idsNeedAck (snd (registerMsgId 2 1 true (snd (registerMsgId 2 3 true w))))
    = [(3, true); (5, true)] /\
  _idsNeedAck (snd (registerMsgId 2 3 true (snd (registerMsgId 2 1 true w))))
    = [(1, true); (3, true); (5, true)].
Proof. split; reflexivity. Qed.

(** Without the bound on the size a registered id may not survive
    [shrink()]: capacity 1, the window of ids 1, 5 and 9, and id 3. *)
Example registered_id_evicted_from_oversized_window :
  let w := Build [(1, true); (5, true); (9, true)] in
  fst (registerMsgId 1 3 true w) = true /\
  lookup 3 (shrink 1 (snd (registerMsgId 1 3 true w))) = NotFound.
Proof. split; reflexivity. Qed.

(** The witness of X1: the window of ids 2, 3 and 4. *)
Lemma min_max_bound_the_window_witness :
  let w := Build [(2, false); (3, true); (4, true)] in
  QMap.wf (_idsNeedAck w) /\
  lookup (min w) w <> NotFound /\
  lookup (max w) w <> NotFound /\
  (forall k, lookup k w <> NotFound -> min w <= k <= max w).
Proof.
  intro w.
  assert (Hwf : QMap.wf (_idsNeedAck w)) by reflexivity.
  split; [exact Hwf|].
  apply (proj2 (min_max_bound_the_window w Hwf)). discriminate.
Defined.

(** The witness of X3: capacity 3, the full window of ids 2, 3 and 4, and
    id 9. *)
Lemma registerMsgId_accepts_id_above_max_witness :
  let w := Build [(2, false); (3, true); (4, true)] in
  QMap.wf (_idsNeedAck w) /\
  max w < 9 /\
  registerMsgId 3 9 true w =
    (true, Build (QMap.insert 9 true (_idsNeedAck w))) /\
  max (snd (registerMsgId 3 9 true w)) = 9.
Proof.
  intro w.
  assert (Hwf : QMap.wf (_idsNeedAck w)) by reflexivity.
  assert (Hmax : max w < 9) by reflexivity.
  split; [exact Hwf|]. split; [exact Hmax|].
  exact (@registerMsgId_accepts_id_above_max 3 9 true w Hwf Hmax).
Defined.

(** The witness of X4: capacity 3, the window of ids 2 and 3, and id 5. *)
Lemma registerMsgId_moves_min_max_witness :
  let w := Build [(2, false); (3, true)] in
  let w' := Build [(2, false); (3, true); (5, true)] in
  QMap.wf (_idsNeedAck w) /\
  registerMsgId 3 5 true w = (true, w') /\
  (_idsNeedAck w = [] -> min w' = 5 /\ max w' = 5) /\
  (_idsNeedAck w <> [] ->
     min w' = Z.min (min w) 5 /\ max w' = Z.max (max w) 5) /\
  (_idsNeedAck w <> [] -> 3 <= QMap.size (_idsNeedAck w) -> min w' = min w).
Proof.
  intros w w'.
  assert (Hwf : QMap.wf (_idsNeedAck w)) by reflexivity.
  assert (Hreg : registerMsgId 3 5 true w = (true, w')) by reflexivity.
  split; [exact Hwf|]. split; [exact Hreg|].
  exact (@registerMsgId_moves_min_max 3 5 true w w' Hwf Hreg).
Defined.

(** The witness of X5: capacity 3, the full window of ids 1, 2 and 3, and
    id 4. *)
Lemma registered_id_survives_shrink_witness :
  let w := Build [(1, true); (2, false); (3, true)] in
  let w' := Build [(1, true); (2, false); (3, true); (4, true)] in
  QMap.wf (_idsNeedAck w) /\
  1 <= 3 /\
  QMap.size (_idsNeedAck w) <= 3 /\
  registerMsgId 3 4 true w = (true, w') /\
  lookup 4 (shrink 3 w') = NeedsAck /\
  QMap.size (_idsNeedAck (shrink 3 w')) <= 3 /\
  (QMap.size (_idsNeedAck w) < 3 -> shrink 3 w' = w') /\
  (QMap.size (_idsNeedAck w) = 3 -> lookup (min w) (shrink 3 w') = NotFound).
Proof.
  intros w w'.
  assert (Hwf : QMap.wf (_idsNeedAck w)) by reflexivity.
  assert (Hcap : 1 <= 3) by lia.
  assert (Hsize : QMap.size (_idsNeedAck w) <= 3) by (vm_compute; discriminate).
  assert (Hreg : registerMsgId 3 4 true w = (true, w')) by reflexivity.
  split; [exact Hwf|]. split; [exact Hcap|]. split; [exact Hsize|].
  split; [exact Hreg|].
  exact (@registered_id_survives_shrink 3 4 true w w' Hwf Hcap Hsize Hreg).
Defined.

(** The witness of X6: capacity 3 and the window of ids 1 to 4. *)
Lemma shrink_twice_witness :
  let w := Build [(1, true); (2, false); (3, true); (4, true)] in
  0 <= 3 /\ shrink 3 (shrink 3 w) = shrink 3 w.
Proof.
  intro w. assert (Hcap : 0 <= 3) by lia.
  split; [exact Hcap|]. exact (@shrink_twice 3 w Hcap).
Defined.

(** The witness of X7: capacity 3, the window of ids 1 to 4, and id 1,
    which [shrink()] evicts. *)
Lemma lookup_after_shrink_witness :
  let w := Build [(1, true); (2, false); (3, true); (4, true)] in
  0 <= 3 /\
  QMap.wf (_idsNeedAck w) /\
  (_idsNeedAck (shrink 3 w) = [] -> lookup 1 (shrink 3 w) = NotFound) /\
  (_idsNeedAck (shrink 3 w) <> [] ->
     lookup 1 (shrink 3 w) =
       if 1 <? min (shrink 3 w) then NotFound else lookup 1 w).
Proof.
  intro w. assert (Hcap : 0 <= 3) by lia.
  assert (Hwf : QMap.wf (_idsNeedAck w)) by reflexivity.
  split; [exact Hcap|]. split; [exact Hwf|].
  exact (@lookup_after_shrink 3 1 w Hcap Hwf).
Defined.

(** The witness of X8: capacity 3 and the window of ids 1 to 4. *)
Lemma shrink_keeps_max_raises_min_witness :
  let w := Build [(1, true); (2, false); (3, true); (4, true)] in
  1 <= 3 /\
  QMap.wf (_idsNeedAck w) /\
  max (shrink 3 w) = max w /\
  min w <= min (shrink 3 w) /\
  (3 < QMap.size (_idsNeedAck w) -> min w < min (shrink 3 w)).
Proof.
  intro w. assert (Hcap : 1 <= 3) by lia.
  assert (Hwf : QMap.wf (_idsNeedAck w)) by reflexivity.
  split; [exact Hcap|]. split; [exact Hwf|].
  exact (@shrink_keeps_max_raises_min 3 w Hcap Hwf).
Defined.

(** The witness of X9: capacity 4, the window of id 5, and ids 3 and 1. *)
Lemma registerMsgId_order_is_irrelevant_with_room_witness :
  let w := Build [(5, true)] in
  3 <> 1 /\
  QMap.size (_idsNeedAck w) + 1 < 4 /\
  snd (registerMsgId 4 1 false (snd (registerMsgId 4 3 true w))) =
  snd (registerMsgId 4 3 true (snd (registerMsgId 4 1 false w))).
Proof.
  intro w. assert (Hne : 3 <> 1) by discriminate.
  assert (Hroom : QMap.size (_idsNeedAck w) + 1 < 4) by reflexivity.
  split; [exact Hne|]. split; [exact Hroom|].
  exact (@registerMsgId_order_is_irrelevant_with_room 4 3 true 1 false w Hne Hroom).
Defined.

(** The witness of X10: the first sequence number of fresh session data,
    1, in element 6 of a message of 8 elements. *)
Lemma ResponseNeedsAck_reads_back_needAck_witness :
  let response := [0; 0; 0; 0; 0; 0; 1; 0] in
  8 <= Z.of_nat (length response) /\
  to_uint32 (nth 6 response 0) =
    fst (SessionData.nextRequestSeqNumber true SessionData.init) /\
  Z.odd (fst (SessionData.nextRequestSeqNumber true SessionData.init)) = true /\
  result (ResponseNeedsAck response) = Some true.
Proof.
  intro response.
  assert (Hlen : 8 <= Z.of_nat (length response)) by (vm_compute; discriminate).
  assert (Hfield : to_uint32 (nth 6 response 0) =
                   fst (SessionData.nextRequestSeqNumber true SessionData.init))
    by reflexivity.
  split; [exact Hlen|]. split; [exact Hfield|].
  exact (@ResponseNeedsAck_reads_back_needAck true SessionData.init response
           Hlen Hfield).
Defined.

(** The witness of X11: fresh session data, a call that needs an ack and
    one that does not. *)
Lemma nextRequestSeqNumber_never_goes_back_witness :
  let d := SessionData.init in
  let first := SessionData.nextRequestSeqNumber true d in
  let second := SessionData.nextRequestSeqNumber false (snd first) in
  0 <= SessionData._messagesSent d /\
  SessionData._messagesSent d + 1 < 2 ^ 31 /\
  fst first <= fst second /\
  (true || false = true -> fst first < fst second) /\
  (true || false = false -> fst first = fst second /\ snd second = d).
Proof.
  intros d first second.
  assert (Hlo : 0 <= SessionData._messagesSent d) by (vm_compute; discriminate).
  assert (Hhi : SessionData._messagesSent d + 1 < 2 ^ 31) by reflexivity.
  split; [exact Hlo|]. split; [exact Hhi|].
  exact (@nextRequestSeqNumber_never_goes_back true false d Hlo Hhi).
Defined.

(** The witness of X12: three calls on fresh session data. *)
Lemma nextRequestSeqNumbers_from_any_counter_witness :
  let d := SessionData.init in
  0 <= SessionData._messagesSent d /\
  SessionData._messagesSent d + Z.of_nat 3 <= 2 ^ 31 /\
  SessionData._messagesSent d < 2 ^ 31 /\
  SessionData.nextRequestSeqNumbers true 3 d =
    ([1; 3; 5], SessionData.set_messagesSent 3 d) /\
  SessionData.nextRequestSeqNumbers false 3 d = ([0; 0; 0], d).
Proof.
  intro d.
  assert (Hlo : 0 <= SessionData._messagesSent d) by (vm_compute; discriminate).
  assert (Hhi : SessionData._messagesSent d + Z.of_nat 3 <= 2 ^ 31)
    by (vm_compute; discriminate).
  assert (Hlt : SessionData._messagesSent d < 2 ^ 31) by reflexivity.
  split; [exact Hlo|]. split; [exact Hhi|]. split; [exact Hlt|].
  exact (@nextRequestSeqNumbers_from_any_counter 3 d Hlo Hhi Hlt).
Defined.

End MoreScenarios.
